(** * Live-quiz session coordinator of server.js (SuperQuiz Live Server)

    Shallow embedding of the Socket.IO handlers [createLive], [joinLive],
    [nextQuestion], [submitAnswer], [endLive] and [disconnect].

    - A socket is identified by a [nat] (the JS code compares sockets with
      [===], i.e. by identity).
    - [liveRooms] is a JS [Map]: an association list that keeps insertion
      order; [Map.set] on a present key replaces the value in place, on an
      absent key appends; [Map.delete] removes the key.
    - Socket.IO rooms ("groups") are a list of (socket, room name) pairs.
    - Every handler returns an [Outcome]: the new state and the emitted
      messages, or a thrown exception together with the state mutated so far
      (mutations performed before a [throw] are not rolled back in JS).
    - [String.prototype.toUpperCase] is modelled on ASCII letters. *)

From Stdlib Require Import String Ascii List ZArith Bool Lia.
Import ListNotations.
Open Scope string_scope.

(** ** Data model *)

Definition Socket := nat.

Record User := mkUser { uid : string; uname : string; role : string }.

(** A question of the quiz document; [qbody] stands for its displayed
    content, [correct] is [question.correct]. *)
Record Question := mkQuestion { qbody : nat; correct : list Z }.

(** The Firestore quiz document ([quizDoc.data()]). *)
Record Quiz := mkQuiz { ownerUid : string; questions : list Question }.

Record Participant := mkParticipant
  { pname : string; score : nat; answers : list (Z * Z) }.

Record Room := mkRoom
  { rcode : string; hostSocket : Socket; quizId : string; quiz : Quiz;
    currentIndex : nat; participants : list (string * Participant) }.

Record State := mkState
  { liveRooms : list (string * Room); groups : list (Socket * string) }.

Definition init : State := mkState [] [].

(** ** JS Map as an ordered association list *)

Section AssocMap.
Context {V : Type}.

Fixpoint map_get (k : string) (m : list (string * V)) : option V :=
  match m with
  | [] => None
  | (k', v) :: m' => if String.eqb k k' then Some v else map_get k m'
  end.

Definition map_has (k : string) (m : list (string * V)) : bool :=
  match map_get k m with Some _ => true | None => false end.

Fixpoint map_set (k : string) (v : V) (m : list (string * V))
  : list (string * V) :=
  match m with
  | [] => [(k, v)]
  | (k', v') :: m' =>
      if String.eqb k k' then (k', v) :: m' else (k', v') :: map_set k v m'
  end.

Definition map_delete (k : string) (m : list (string * V))
  : list (string * V) :=
  filter (fun kv => negb (String.eqb k (fst kv))) m.
End AssocMap.

(** Participant answers: a JS object indexed by the question index. *)
Fixpoint answers_set (i v : Z) (m : list (Z * Z)) : list (Z * Z) :=
  match m with
  | [] => [(i, v)]
  | (i', v') :: m' =>
      if Z.eqb i i' then (i', v) :: m' else (i', v') :: answers_set i v m'
  end.

Fixpoint answers_get (i : Z) (m : list (Z * Z)) : option Z :=
  match m with
  | [] => None
  | (i', v) :: m' => if Z.eqb i i' then Some v else answers_get i m'
  end.

(** [array[i]] in JS: [undefined] for a negative or too large index. *)
Definition nth_z {A} (l : list A) (i : Z) : option A :=
  if Z.ltb i 0 then None else nth_error l (Z.to_nat i).

(** ** Socket.IO rooms *)

Definition join (s : Socket) (g : string) (gs : list (Socket * string))
  : list (Socket * string) :=
  if existsb (fun p => Nat.eqb (fst p) s && String.eqb (snd p) g) gs
  then gs else gs ++ [(s, g)].

Definition members (gs : list (Socket * string)) (g : string) : list Socket :=
  map fst (filter (fun p => String.eqb (snd p) g) gs).

(** ** Messages *)

Inductive Msg :=
| MError (text : string)                 (* callback({ error }) *)
| MCode (code : string)                  (* callback({ code }) *)
| MSuccess                               (* callback({ success: true }) *)
| MLiveCreated (code : string)
| MStudentJoined (name : string) (count : nat)
| MNewQuestion (q : option Question) (index : Z)
| MLiveEnded (reason : string)
| MAnswerHost (name : string) (isCorrect : bool)
| MAnswerPeer (name : string).

Inductive Target :=
| Reply                                  (* the acknowledgement callback *)
| ToSocket (s : Socket)                  (* socket.emit *)
| ToGroup (g : string)                   (* io.to(g).emit *)
| ToGroupExcept (g : string) (s : Socket). (* socket.to(g).emit *)

Definition Output := (Target * Msg)%type.

Inductive Outcome :=
| Ret (st : State) (out : list Output)
| Throw (st : State) (out : list Output).

Definition outcome_state (o : Outcome) : State :=
  match o with Ret st _ | Throw st _ => st end.

Definition outcome_out (o : Outcome) : list Output :=
  match o with Ret _ out | Throw _ out => out end.

(** Sockets reached by an output, given the group memberships. *)
Definition recipients (gs : list (Socket * string)) (caller : Socket)
  (t : Target) : list Socket :=
  match t with
  | Reply => [caller]
  | ToSocket s => [s]
  | ToGroup g => members gs g
  | ToGroupExcept g s => filter (fun x => negb (Nat.eqb x s)) (members gs g)
  end.

(** ** Code generator *)

Definition ascii_toUpper (c : ascii) : ascii :=
  let n := nat_of_ascii c in
  if ((97 <=? n) && (n <=? 122))%nat then ascii_of_nat (n - 32)%nat else c.

(** [String.prototype.toUpperCase] on ASCII text: it maps ['a'..'z'] to
    ['A'..'Z'] and keeps every other ASCII character. JavaScript also maps
    some non-ASCII characters (to ASCII ones, e.g. dotless ['ı'] to ['I']),
    which this function does not model: it agrees with JavaScript on
    strings for which [ascii_only] holds. *)
Fixpoint toUpperCase (s : string) : string :=
  match s with
  | EmptyString => EmptyString
  | String c s' => String (ascii_toUpper c) (toUpperCase s')
  end.

(** The string consists of 7-bit ASCII characters only. *)
Fixpoint ascii_only (s : string) : bool :=
  match s with
  | EmptyString => true
  | String c s' => (nat_of_ascii c <? 128)%nat && ascii_only s'
  end.

(** [generateCode]: ['QZ-' + Math.random().toString(36).substring(2, 8)
    .toUpperCase()], with [r] the base-36 text of the random number. *)
Definition generateCode (r : string) : string :=
  "QZ-" ++ toUpperCase (substring 2 6 r).

(** The [do { code = generateCode() } while (liveRooms.has(code))] loop
    over a sequence of random draws; [None] when no draw of the sequence
    gives a fresh code (the loop has not exited yet). *)
Fixpoint pick_code (rooms : list (string * Room)) (draws : list string)
  : option string :=
  match draws with
  | [] => None
  | r :: rs =>
      let code := generateCode r in
      if map_has code rooms then pick_code rooms rs else Some code
  end.

(** ** Handlers *)

(** Result of [admin.firestore().collection('quizzes').doc(quizId).get()]. *)
Inductive Fetch :=
| FetchThrows                  (* the awaited call rejects *)
| FetchMissing                 (* quizDoc.exists is false *)
| FetchFound (q : Quiz).

Definition createLive (st : State) (sock : Socket) (user : User)
  (qid : string) (fetch : Fetch) (draws : list string) : Outcome :=
  if negb (String.eqb (role user) "teacher") then
    Ret st [(Reply, MError "Seuls les professeurs peuvent créer un live")]
  else
    match fetch with
    | FetchThrows => Ret st [(Reply, MError "Erreur serveur")]
    | FetchMissing => Ret st [(Reply, MError "Quiz introuvable")]
    | FetchFound quizData =>
        if negb (String.eqb (ownerUid quizData) (uid user)) then
          Ret st [(Reply,
                   MError "Vous n'êtes pas le propriétaire de ce quiz")]
        else
          match pick_code (liveRooms st) draws with
          | None => Ret st []
          | Some code =>
              let room := mkRoom code sock qid quizData 0 [] in
              Ret (mkState (map_set code room (liveRooms st))
                           (join sock code (groups st)))
                  [(Reply, MCode code); (ToSocket sock, MLiveCreated code)]
          end
    end.

Definition joinLive (st : State) (sock : Socket) (user : User)
  (code : string) : Outcome :=
  let key := toUpperCase code in
  match map_get key (liveRooms st) with
  | None => Ret st [(Reply, MError "Code invalide ou live terminé")]
  | Some room =>
      let gs := join sock code (groups st) in
      let participant := mkParticipant (uname user) 0 [] in
      let ps := map_set (uid user) participant (participants room) in
      let room' := mkRoom (rcode room) (hostSocket room) (quizId room)
                     (quiz room) (currentIndex room) ps in
      let count := length ps in
      let catchup :=
        if (0 <? currentIndex room)%nat then
          [(ToSocket sock,
            MNewQuestion (nth_z (questions (quiz room))
                                (Z.of_nat (currentIndex room) - 1)%Z)
                         (Z.of_nat (currentIndex room) - 1)%Z)]
        else [] in
      Ret (mkState (map_set key room' (liveRooms st)) gs)
          ([(ToSocket (hostSocket room), MStudentJoined (uname user) count);
            (ToGroupExcept code sock, MStudentJoined (uname user) count);
            (Reply, MSuccess)] ++ catchup)
  end.

Definition with_index (room : Room) (i : nat) : Room :=
  mkRoom (rcode room) (hostSocket room) (quizId room) (quiz room) i
         (participants room).

Definition nextQuestion (st : State) (sock : Socket) (code : string)
  : Outcome :=
  match map_get code (liveRooms st) with
  | None => Ret st []
  | Some room =>
      if negb (Nat.eqb (hostSocket room) sock) then Ret st []
      else if (length (questions (quiz room)) <=? currentIndex room)%nat then
        Ret (mkState (map_delete code (liveRooms st)) (groups st))
            [(ToGroup code, MLiveEnded "quiz_completed")]
      else
        let question := nth_error (questions (quiz room)) (currentIndex room) in
        let room' := with_index room (S (currentIndex room)) in
        Ret (mkState (map_set code room' (liveRooms st)) (groups st))
            [(ToGroup code,
              MNewQuestion question (Z.of_nat (S (currentIndex room)) - 1)%Z)]
  end.

Definition with_participant (room : Room) (u : string) (p : Participant)
  : Room :=
  mkRoom (rcode room) (hostSocket room) (quizId room) (quiz room)
         (currentIndex room) (map_set u p (participants room)).

Definition submitAnswer (st : State) (sock : Socket) (user : User)
  (code : string) (answerIndex : Z) : Outcome :=
  match map_get code (liveRooms st) with
  | None => Ret st []
  | Some room =>
      match map_get (uid user) (participants room) with
      | None => Ret st []
      | Some participant =>
          let currentQuestionIndex := (Z.of_nat (currentIndex room) - 1)%Z in
          let question := nth_z (questions (quiz room)) currentQuestionIndex in
          (* participant.answers[currentQuestionIndex] = answerIndex *)
          let p1 := mkParticipant (pname participant) (score participant)
                      (answers_set currentQuestionIndex answerIndex
                                   (answers participant)) in
          let st1 := mkState (map_set code (with_participant room (uid user) p1)
                                      (liveRooms st)) (groups st) in
          match question with
          | None => Throw st1 []  (* TypeError: question is undefined *)
          | Some q =>
              let isCorrect := existsb (Z.eqb answerIndex) (correct q) in
              let p2 := if isCorrect then
                          mkParticipant (pname p1) (S (score p1)) (answers p1)
                        else p1 in
              Ret (mkState (map_set code (with_participant room (uid user) p2)
                                    (liveRooms st)) (groups st))
                  [(ToSocket (hostSocket room),
                    MAnswerHost (pname participant) isCorrect);
                   (ToGroupExcept code sock, MAnswerPeer (pname participant))]
          end
      end
  end.

Definition endLive (st : State) (sock : Socket) (code : string) : Outcome :=
  match map_get code (liveRooms st) with
  | None => Ret st []
  | Some room =>
      if negb (Nat.eqb (hostSocket room) sock) then Ret st []
      else Ret (mkState (map_delete code (liveRooms st)) (groups st))
               [(ToGroup code, MLiveEnded "ended_by_teacher")]
  end.

(** [for (const [code, room] of liveRooms.entries())] with [break] after
    the first room hosted by the dropped socket. *)
Fixpoint find_hosted (sock : Socket) (rooms : list (string * Room))
  : option string :=
  match rooms with
  | [] => None
  | (code, room) :: rs =>
      if Nat.eqb (hostSocket room) sock then Some code else find_hosted sock rs
  end.

(** [socket.leaveAll()]: Socket.IO removes a closing socket from all its
    rooms ([Socket._onclose] calls [_cleanup]) before it emits the
    reserved ['disconnect'] event to the listener. *)
Definition leaveAll (sock : Socket) (gs : list (Socket * string))
  : list (Socket * string) :=
  filter (fun p => negb (Nat.eqb (fst p) sock)) gs.

(** The ['disconnect'] listener, run after [leaveAll]. *)
Definition disconnect (st : State) (sock : Socket) : Outcome :=
  let gs := leaveAll sock (groups st) in
  match find_hosted sock (liveRooms st) with
  | None => Ret (mkState (liveRooms st) gs) []
  | Some code =>
      Ret (mkState (map_delete code (liveRooms st)) gs)
          [(ToGroup code, MLiveEnded "teacher_disconnected")]
  end.

(** ** Event dispatch *)

Inductive Event :=
| ECreateLive (s : Socket) (u : User) (qid : string) (f : Fetch)
              (draws : list string)
| EJoinLive (s : Socket) (u : User) (code : string)
| ENextQuestion (s : Socket) (code : string)
| ESubmitAnswer (s : Socket) (u : User) (code : string) (answerIndex : Z)
| EEndLive (s : Socket) (code : string)
| EDisconnect (s : Socket).

Definition step (st : State) (e : Event) : Outcome :=
  match e with
  | ECreateLive s u q f d => createLive st s u q f d
  | EJoinLive s u c => joinLive st s u c
  | ENextQuestion s c => nextQuestion st s c
  | ESubmitAnswer s u c a => submitAnswer st s u c a
  | EEndLive s c => endLive st s c
  | EDisconnect s => disconnect st s
  end.

Fixpoint run (st : State) (es : list Event) : State :=
  match es with
  | [] => st
  | e :: es' => run (outcome_state (step st e)) es'
  end.

(** ** Authentication middleware ([io.use]) *)

(** The claims of [admin.auth().verifyIdToken(token)] that the middleware
    reads; [None] is [undefined]. *)
Record DecodedToken := mkDecoded
  { d_uid : string; d_email : option string; d_name : option string;
    d_role : option string }.

Inductive VerifyResult :=
| VerifyRejects                 (* verifyIdToken throws *)
| VerifyOk (d : DecodedToken).

Inductive AuthResult :=
| AuthError (msg : string)      (* next(new Error(msg)) *)
| AuthOk (u : User).            (* socket.user = ...; next() *)

(** [a || b] on an optional string: [undefined] and [""] are falsy. *)
Definition js_or_opt (a b : option string) : option string :=
  match a with
  | Some s => if String.eqb s "" then b else Some s
  | None => b
  end.

Definition js_or (a : option string) (b : string) : string :=
  match js_or_opt a (Some b) with Some s => s | None => b end.

(** [s.split('@')[0]]: the text before the first ['@']. *)
Fixpoint split_at_first (s : string) : string :=
  match s with
  | EmptyString => EmptyString
  | String c s' =>
      if Ascii.eqb c "@"%char then EmptyString else String c (split_at_first s')
  end.

(** The [socket.user] object built from the decoded token (its [email]
    field is not read by any handler and is left out of [User]). *)
Definition user_of_token (d : DecodedToken) : User :=
  mkUser (d_uid d)
         (js_or (js_or_opt (d_name d) (option_map split_at_first (d_email d)))
                "Anonyme")
         (js_or (d_role d) "student").

(** The middleware: [token] is [socket.handshake.auth?.token]. *)
Definition authenticate (token : option string)
  (verifyIdToken : string -> VerifyResult) : AuthResult :=
  match js_or_opt token None with
  | None => AuthError "Token d'authentification manquant"
  | Some t =>
      match verifyIdToken t with
      | VerifyRejects => AuthError "Token invalide ou expiré"
      | VerifyOk d => AuthOk (user_of_token d)
      end
  end.

(** ** A concrete session used by the examples and witnesses *)

Definition q0 : Question := mkQuestion 0 [1%Z].
Definition q1 : Question := mkQuestion 1 [0%Z; 2%Z].
Definition quiz2 : Quiz := mkQuiz "T1" [q0; q1].
Definition teacher : User := mkUser "T1" "Prof" "teacher".
Definition alice : User := mkUser "A1" "Alice" "student".
Definition hostS : Socket := 1.
Definition aliceS : Socket := 2.
Definition draw0 : string := "0.abc123xyz".

Definition st_created : State :=
  outcome_state (createLive init hostS teacher "quiz-1" (FetchFound quiz2)
                            [draw0]).
Definition st_joined : State :=
  outcome_state (joinLive st_created aliceS alice "QZ-ABC123").
Definition st_q1 : State :=
  outcome_state (nextQuestion st_joined hostS "QZ-ABC123").

(** ** Lemmas on the association-list map *)

Section MapFacts.
Context {V : Type}.

Lemma map_get_set_eq (k : string) (v : V) (m : list (string * V)) :
  map_get k (map_set k v m) = Some v.
Proof.
  induction m as [|[k' v'] m IH]; simpl.
  - now rewrite String.eqb_refl.
  - destruct (String.eqb k k') eqn:E; simpl.
    + apply String.eqb_eq in E; subst. now rewrite String.eqb_refl.
    + now rewrite E.
Qed.

Lemma map_get_set_neq (k k' : string) (v : V) (m : list (string * V)) :
  k <> k' -> map_get k' (map_set k v m) = map_get k' m.
Proof.
  intros Hne. induction m as [|[k0 v0] m IH]; simpl.
  - destruct (String.eqb k' k) eqn:E; [|reflexivity].
    apply String.eqb_eq in E. congruence.
  - destruct (String.eqb k k0) eqn:E; simpl.
    + apply String.eqb_eq in E; subst.
      destruct (String.eqb k' k0) eqn:E'; [|reflexivity].
      apply String.eqb_eq in E'. congruence.
    + now rewrite IH.
Qed.

Lemma map_get_delete_eq (k : string) (m : list (string * V)) :
  map_get k (map_delete k m) = None.
Proof.
  unfold map_delete.
  induction m as [|[k' v'] m IH]; simpl; [reflexivity|].
  destruct (String.eqb k k') eqn:E; simpl; [exact IH|].
  now rewrite E.
Qed.

Lemma map_get_delete_neq (k k' : string) (m : list (string * V)) :
  k <> k' -> map_get k' (map_delete k m) = map_get k' m.
Proof.
  intros Hne. unfold map_delete.
  induction m as [|[k0 v0] m IH]; simpl; [reflexivity|].
  destruct (String.eqb k k0) eqn:E; simpl.
  - apply String.eqb_eq in E; subst.
    destruct (String.eqb k' k0) eqn:E'; [|exact IH].
    apply String.eqb_eq in E'. congruence.
  - now rewrite IH.
Qed.

Variable P : V -> Prop.

Definition all_values (m : list (string * V)) : Prop :=
  Forall (fun kv => P (snd kv)) m.

Lemma all_values_get (k : string) (v : V) (m : list (string * V)) :
  all_values m -> map_get k m = Some v -> P v.
Proof.
  unfold all_values. induction 1 as [|[k' v'] m Hx Hm IH]; simpl;
    [discriminate|].
  destruct (String.eqb k k'); [|exact IH].
  intros H; injection H as <-. exact Hx.
Qed.

Lemma all_values_set (k : string) (v : V) (m : list (string * V)) :
  all_values m -> P v -> all_values (map_set k v m).
Proof.
  unfold all_values. intros Hm Hv.
  induction Hm as [|[k' v'] m Hx Hm IH]; simpl.
  - constructor; [exact Hv | constructor].
  - destruct (String.eqb k k'); constructor; auto.
Qed.

Lemma all_values_delete (k : string) (m : list (string * V)) :
  all_values m -> all_values (map_delete k m).
Proof.
  unfold all_values, map_delete. intros Hm.
  apply Forall_forall. intros x Hx.
  apply filter_In in Hx as [Hx _].
  exact (proj1 (Forall_forall _ _) Hm x Hx).
Qed.
End MapFacts.

(** ** Invariant on [currentIndex] *)

Definition index_ok (room : Room) : Prop :=
  currentIndex room <= length (questions (quiz room)).

Definition Inv (st : State) : Prop := all_values index_ok (liveRooms st).

Lemma pick_code_fresh (rooms : list (string * Room)) draws code :
  pick_code rooms draws = Some code -> map_has code rooms = false.
Proof.
  induction draws as [|r rs IH]; simpl; [discriminate|].
  destruct (map_has (generateCode r) rooms) eqn:E; [exact IH|].
  intros H; injection H as <-. exact E.
Qed.

Lemma createLive_inv st s u q f d : Inv st -> Inv (outcome_state (createLive st s u q f d)).
Proof.
  unfold createLive, Inv. intros H.
  destruct (negb _); [exact H|].
  destruct f as [| |qz]; simpl; try exact H.
  destruct (negb _); [exact H|].
  destruct (pick_code _ _); simpl; [|exact H].
  apply all_values_set; [exact H|]. unfold index_ok; simpl; lia.
Qed.

Lemma joinLive_inv st s u c : Inv st -> Inv (outcome_state (joinLive st s u c)).
Proof.
  unfold joinLive, Inv. intros H.
  destruct (map_get _ _) as [room|] eqn:E; simpl; [|exact H].
  apply all_values_set; [exact H|].
  exact (all_values_get _ _ _ _ H E).
Qed.

Lemma nextQuestion_inv st s c : Inv st -> Inv (outcome_state (nextQuestion st s c)).
Proof.
  unfold nextQuestion, Inv. intros H.
  destruct (map_get _ _) as [room|] eqn:E; simpl; [|exact H].
  destruct (negb _); simpl; [exact H|].
  destruct (length (questions (quiz room)) <=? currentIndex room)%nat eqn:L;
    simpl.
  - now apply all_values_delete.
  - apply all_values_set; [exact H|].
    apply Nat.leb_gt in L. unfold index_ok, with_index; simpl; lia.
Qed.

Lemma submitAnswer_inv st s u c a :
  Inv st -> Inv (outcome_state (submitAnswer st s u c a)).
Proof.
  unfold submitAnswer, Inv. intros H.
  destruct (map_get c _) as [room|] eqn:E; simpl; [|exact H].
  pose proof (all_values_get _ _ _ _ H E) as Hr.
  destruct (map_get (uid u) _); simpl; [|exact H].
  destruct (nth_z _ _); simpl; apply all_values_set; auto.
Qed.

Lemma endLive_inv st s c : Inv st -> Inv (outcome_state (endLive st s c)).
Proof.
  unfold endLive, Inv. intros H.
  destruct (map_get _ _); simpl; [|exact H].
  destruct (negb _); simpl; [exact H|]. now apply all_values_delete.
Qed.

Lemma disconnect_inv st s : Inv st -> Inv (outcome_state (disconnect st s)).
Proof.
  unfold disconnect, Inv. intros H.
  destruct (find_hosted _ _); simpl; [now apply all_values_delete|exact H].
Qed.

Lemma step_inv st e : Inv st -> Inv (outcome_state (step st e)).
Proof.
  destruct e; simpl.
  - apply createLive_inv.
  - apply joinLive_inv.
  - apply nextQuestion_inv.
  - apply submitAnswer_inv.
  - apply endLive_inv.
  - apply disconnect_inv.
Qed.

(** C5: from the empty registry, after any sequence of [createLive],
    [joinLive], [nextQuestion], [submitAnswer] (also one that throws),
    [endLive] and [disconnect] events, every live session satisfies
    [0 <= currentIndex <= length quiz.questions]. *)
Theorem currentIndex_bounded (es : list Event) :
  Forall (fun kr => 0 <= currentIndex (snd kr) <= length (questions (quiz (snd kr))))
         (liveRooms (run init es)).
Proof.
  assert (H : forall st, Inv st -> Inv (run st es)).
  { induction es as [|e es IH]; intros st Hst; simpl; [exact Hst|].
    apply IH, step_inv, Hst. }
  specialize (H init (Forall_nil _)).
  unfold Inv, all_values, index_ok in H.
  eapply Forall_impl; [|exact H]. intros kr Hkr; simpl in *; lia.
Qed.

(** ** Scoring in [submitAnswer] *)

Definition participant_of (st : State) (code u : string) : option Participant :=
  match map_get code (liveRooms st) with
  | Some room => map_get u (participants room)
  | None => None
  end.

Definition score_of (st : State) (code u : string) : option nat :=
  option_map score (participant_of st code u).

Lemma nth_z_prev {A} (l : list A) (n : nat) :
  0 < n -> nth_z l (Z.of_nat n - 1)%Z = nth_error l (n - 1).
Proof.
  intros Hn. unfold nth_z.
  replace (Z.of_nat n - 1 <? 0)%Z with false by (symmetry; apply Z.ltb_ge; lia).
  f_equal. lia.
Qed.

Lemma existsb_Z_in (a : Z) (l : list Z) : In a l -> existsb (Z.eqb a) l = true.
Proof.
  intros H. apply existsb_exists. exists a. split; [exact H|apply Z.eqb_refl].
Qed.

Lemma participant_of_with (st : State) code room u p :
  participant_of
    (mkState (map_set code (with_participant room u p) (liveRooms st))
             (groups st)) code u = Some p.
Proof.
  unfold participant_of; simpl. rewrite map_get_set_eq. simpl.
  apply map_get_set_eq.
Qed.

(** Two submissions of the correct answer to question 0 of the example
    session. *)
Definition st_after_first : State :=
  outcome_state (submitAnswer st_q1 aliceS alice "QZ-ABC123" 1%Z).
Definition st_after_second : State :=
  outcome_state (submitAnswer st_after_first aliceS alice "QZ-ABC123" 1%Z).

(** C1 (counterexample): in the example session at question index 0,
    Alice's score is 0; she submits the correct answer 1 twice for that same
    index and her score becomes 2, not 1. *)
Lemma submitAnswer_double_count :
  score_of st_q1 "QZ-ABC123" "A1" = Some 0 /\
  score_of st_after_first "QZ-ABC123" "A1" = Some 1 /\
  score_of st_after_second "QZ-ABC123" "A1" = Some 2.
Proof. vm_compute. repeat split. Qed.

(** C1 (amended): whenever the session and the caller's participant exist
    and a question has been sent ([0 < currentIndex]), a [submitAnswer]
    whose [answerIndex] is in the current question's [correct] list records
    the answer under index [currentIndex - 1] and raises the score by
    exactly 1, whatever the participant's earlier answers: a repeated
    correct submission for an already-answered index is counted again. *)
Theorem submitAnswer_correct_increments st sock user code room p q ans :
  map_get code (liveRooms st) = Some room ->
  map_get (uid user) (participants room) = Some p ->
  0 < currentIndex room ->
  nth_error (questions (quiz room)) (currentIndex room - 1) = Some q ->
  In ans (correct q) ->
  exists st' out,
    submitAnswer st sock user code ans = Ret st' out /\
    score_of st' code (uid user) = Some (S (score p)) /\
    option_map (fun p' => answers_get (Z.of_nat (currentIndex room) - 1) (answers p'))
      (participant_of st' code (uid user)) = Some (Some ans).
Proof.
  intros Hr Hp Hci Hq Hin.
  unfold submitAnswer. rewrite Hr, Hp, (nth_z_prev _ _ Hci), Hq.
  rewrite (existsb_Z_in _ _ Hin).
  eexists; eexists; split; [reflexivity|].
  unfold score_of. rewrite participant_of_with. simpl. split; [reflexivity|].
  clear. f_equal. generalize (answers p).
  induction l as [|[i v] l IH]; simpl.
  - now rewrite Z.eqb_refl.
  - destruct (Z.eqb _ i) eqn:E; simpl; [now rewrite E|].
    now rewrite E.
Qed.

Definition answer_of (st : State) (code u : string) (i : Z) : option Z :=
  match participant_of st code u with
  | Some p => answers_get i (answers p)
  | None => None
  end.

Definition st_lobby_answered : State :=
  outcome_state (submitAnswer st_joined aliceS alice "QZ-ABC123" 1%Z).

(** C2 (code_bug): in the example session in the lobby ([currentIndex = 0])
    with Alice joined, her [submitAnswer] is not dropped: the handler writes
    [participant.answers[-1] = 1] and then throws (reading [.correct] of
    the [undefined] question [questions[-1]]), so the state is changed and
    an exception is raised. *)
Theorem submitAnswer_lobby_throws :
  map_get "QZ-ABC123" (liveRooms st_joined) <> None /\
  option_map currentIndex (map_get "QZ-ABC123" (liveRooms st_joined)) = Some 0 /\
  participant_of st_joined "QZ-ABC123" "A1" <> None /\
  submitAnswer st_joined aliceS alice "QZ-ABC123" 1%Z = Throw st_lobby_answered [] /\
  answer_of st_joined "QZ-ABC123" "A1" (-1) = None /\
  answer_of st_lobby_answered "QZ-ABC123" "A1" (-1) = Some 1%Z /\
  st_lobby_answered <> st_joined.
Proof.
  vm_compute. repeat split; try discriminate.
Qed.

(** ** Advancing a session with [nextQuestion] *)

(** The state after [n] consecutive [nextQuestion] calls by [s] on [code]. *)
Fixpoint nq_times (st : State) (s : Socket) (code : string) (n : nat) : State :=
  match n with
  | 0 => st
  | S n' => outcome_state (nextQuestion (nq_times st s code n') s code)
  end.

(** C3 (counterexample): the example quiz has 2 questions; after exactly
    2 [nextQuestion] calls by the host on the fresh session, the session is
    still registered (with [currentIndex = 2]); it is only the third call
    that ends it. *)
Lemma nextQuestion_len_calls_not_ended :
  length (questions quiz2) = 2 /\
  option_map currentIndex
    (map_get "QZ-ABC123" (liveRooms (nq_times st_created hostS "QZ-ABC123" 2)))
    = Some 2 /\
  map_get "QZ-ABC123" (liveRooms (nq_times st_created hostS "QZ-ABC123" 3))
    = None.
Proof. vm_compute. repeat split. Qed.

Lemma nq_times_index st h code room i :
  map_get code (liveRooms st) = Some room ->
  currentIndex room = 0 -> hostSocket room = h ->
  i <= length (questions (quiz room)) ->
  map_get code (liveRooms (nq_times st h code i)) = Some (with_index room i).
Proof.
  intros Hr H0 Hh. induction i as [|i IH]; intros Hi; cbn [nq_times].
  - rewrite Hr. destruct room; simpl in *; subst; reflexivity.
  - unfold nextQuestion. rewrite IH by lia. simpl.
    rewrite Hh, Nat.eqb_refl. simpl.
    replace (length (questions (quiz room)) <=? i)%nat with false
      by (symmetry; apply Nat.leb_gt; lia).
    simpl. apply map_get_set_eq.
Qed.

(** C3 (amended): on a session whose [currentIndex] is 0, [len] calls of
    [nextQuestion] by its host (with [len = length quiz.questions]) send
    the questions in order (call [i+1], for [i < len], broadcasts exactly
    [newQuestion { question: questions[i], index: i }] to the group) and
    leave it registered with [currentIndex = len]; the next call broadcasts
    [liveEnded { reason: 'quiz_completed' }] to the group and removes it
    from the registry; any further [nextQuestion] (by any socket) is a
    no-op because the session is no longer found. *)
Theorem nextQuestion_ends_after_len_plus_one st h code room :
  map_get code (liveRooms st) = Some room ->
  currentIndex room = 0 -> hostSocket room = h ->
  let len := length (questions (quiz room)) in
  let st_len := nq_times st h code len in
  (forall i, (i < len)%nat ->
     exists q, nth_error (questions (quiz room)) i = Some q /\
       outcome_out (nextQuestion (nq_times st h code i) h code)
         = [(ToGroup code, MNewQuestion (Some q) (Z.of_nat i))]) /\
  map_get code (liveRooms st_len) = Some (with_index room len) /\
  exists st_end,
    nextQuestion st_len h code
      = Ret st_end [(ToGroup code, MLiveEnded "quiz_completed")] /\
    map_get code (liveRooms st_end) = None /\
    forall s', nextQuestion st_end s' code = Ret st_end [].
Proof.
  intros Hr H0 Hh len st_len. split.
  { intros i Hi.
    destruct (nth_error (questions (quiz room)) i) as [q|] eqn:Q;
      [|apply nth_error_None in Q; unfold len in Hi; lia].
    exists q. split; [reflexivity|].
    assert (E : forall n, (Z.of_nat (S n) - 1)%Z = Z.of_nat n) by lia.
    unfold nextQuestion. rewrite (nq_times_index st h code room i Hr H0 Hh)
      by (unfold len in Hi; lia).
    rewrite E. simpl. rewrite Hh, Nat.eqb_refl. simpl.
    replace (length (questions (quiz room)) <=? i)%nat with false
      by (symmetry; apply Nat.leb_gt; unfold len in Hi; lia).
    simpl. rewrite Q. reflexivity. }
  assert (Hlen : map_get code (liveRooms st_len) = Some (with_index room len))
    by (apply nq_times_index; auto).
  split; [exact Hlen|].
  unfold nextQuestion at 1. rewrite Hlen. simpl.
  rewrite Hh, Nat.eqb_refl, Nat.leb_refl. simpl.
  eexists; split; [reflexivity|].
  split; [apply map_get_delete_eq|].
  intros s'. unfold nextQuestion. simpl. now rewrite map_get_delete_eq.
Qed.

(** ** Session-code lookup *)

(** C4 (code_bug): [joinLive] upper-cases the submitted code before the
    lookup, but [nextQuestion], [submitAnswer] and [endLive] look the raw
    code up: in the example session (canonical code ["QZ-ABC123"]), the
    code ["qz-abc123"] is accepted by [joinLive], while the host's
    [nextQuestion] and [endLive] and Alice's [submitAnswer] with it do
    nothing, although they act with ["QZ-ABC123"]. *)
Theorem code_lookup_case_sensitive :
  toUpperCase "qz-abc123" = "QZ-ABC123" /\
  outcome_out (joinLive st_created aliceS alice "qz-abc123")
    = [(ToSocket hostS, MStudentJoined "Alice" 1);
       (ToGroupExcept "qz-abc123" aliceS, MStudentJoined "Alice" 1);
       (Reply, MSuccess)] /\
  nextQuestion st_joined hostS "qz-abc123" = Ret st_joined [] /\
  nextQuestion st_joined hostS "QZ-ABC123" <> Ret st_joined [] /\
  endLive st_joined hostS "qz-abc123" = Ret st_joined [] /\
  endLive st_joined hostS "QZ-ABC123" <> Ret st_joined [] /\
  submitAnswer st_q1 aliceS alice "qz-abc123" 1%Z = Ret st_q1 [] /\
  submitAnswer st_q1 aliceS alice "QZ-ABC123" 1%Z <> Ret st_q1 [].
Proof. vm_compute. repeat split; discriminate. Qed.

(** ** Host-only operations *)

(** C6: a [nextQuestion] or [endLive] call whose socket is not the
    recorded [hostSocket] of the session named by the code (or whose code
    names no session) leaves the whole state (registry, [currentIndex],
    participants, groups) unchanged and emits nothing. *)
Theorem non_host_calls_are_noops st sock code :
  (forall room, map_get code (liveRooms st) = Some room ->
                hostSocket room <> sock) ->
  nextQuestion st sock code = Ret st [] /\ endLive st sock code = Ret st [].
Proof.
  intros Hnh. unfold nextQuestion, endLive.
  destruct (map_get code (liveRooms st)) as [room|] eqn:E; [|split; reflexivity].
  specialize (Hnh room eq_refl).
  apply Nat.eqb_neq in Hnh. rewrite Hnh. split; reflexivity.
Qed.

(** ** Failure paths of [createLive] *)

Inductive createLive_fails (user : User) : Fetch -> Prop :=
| FailRole f : role user <> "teacher" -> createLive_fails user f
| FailThrows : createLive_fails user FetchThrows
| FailMissing : createLive_fails user FetchMissing
| FailOwner q : ownerUid q <> uid user -> createLive_fails user (FetchFound q).

(** C7: on every failure path of [createLive] (caller not a teacher,
    content-store fetch throws, quiz not found, caller not the owner) the
    only output is one error on the caller's acknowledgement callback and
    the state (registry and groups) is unchanged: no code is drawn and no
    session is registered. *)
Theorem createLive_failure_no_mutation st sock user qid fetch draws :
  createLive_fails user fetch ->
  exists err, createLive st sock user qid fetch draws = Ret st [(Reply, MError err)].
Proof.
  intros Hf. unfold createLive.
  destruct (String.eqb (role user) "teacher") eqn:R; simpl;
    [|eexists; reflexivity].
  apply String.eqb_eq in R.
  destruct Hf as [f Hr| | |q Ho]; try (exfalso; exact (Hr R));
    try (eexists; reflexivity).
  apply String.eqb_neq in Ho. rewrite Ho. simpl. eexists; reflexivity.
Qed.

(** ** Notifications of [submitAnswer] *)

(** C8: when a [submitAnswer] is processed (session and participant
    found, a question sent), two runs that differ only in the submitted
    [answerIndex] emit exactly two messages each: the host's
    [answerReceived] with the name and the correctness flag, and the same
    name-only [answerReceived] to the rest of the group (except the
    submitter) in both runs; the peers' message does not depend on the
    answer or its correctness. *)
Theorem submitAnswer_peer_notification_uniform st sock user code room p q a1 a2 :
  map_get code (liveRooms st) = Some room ->
  map_get (uid user) (participants room) = Some p ->
  0 < currentIndex room ->
  nth_error (questions (quiz room)) (currentIndex room - 1) = Some q ->
  let peer := (ToGroupExcept code sock, MAnswerPeer (pname p)) in
  exists st1 st2,
    submitAnswer st sock user code a1
      = Ret st1 [(ToSocket (hostSocket room),
                  MAnswerHost (pname p) (existsb (Z.eqb a1) (correct q))); peer] /\
    submitAnswer st sock user code a2
      = Ret st2 [(ToSocket (hostSocket room),
                  MAnswerHost (pname p) (existsb (Z.eqb a2) (correct q))); peer].
Proof.
  intros Hr Hp Hci Hq peer.
  unfold submitAnswer. rewrite Hr, Hp, (nth_z_prev _ _ Hci), Hq.
  eexists; eexists; split; reflexivity.
Qed.

(** ** [disconnect] *)

Lemma find_hosted_app sock pre k r post :
  Forall (fun kr => hostSocket (snd kr) <> sock) pre ->
  hostSocket r = sock ->
  find_hosted sock (pre ++ (k, r) :: post)%list = Some k.
Proof.
  intros Hpre Hr. induction Hpre as [|[k' r'] pre Hx _ IH]; simpl in *.
  - now rewrite Hr, Nat.eqb_refl.
  - apply Nat.eqb_neq in Hx. now rewrite Hx.
Qed.

Lemma map_delete_absent {V} k (m : list (string * V)) :
  ~ In k (map fst m) -> map_delete k m = m.
Proof.
  unfold map_delete. induction m as [|[k' v'] m IH]; simpl; intros Hn;
    [reflexivity|].
  destruct (String.eqb k k') eqn:E.
  - apply String.eqb_eq in E. exfalso; apply Hn; left; congruence.
  - simpl. f_equal. apply IH. intros H; apply Hn; right; exact H.
Qed.

Lemma map_delete_app {V} k (v : V) pre post :
  NoDup (map fst (pre ++ (k, v) :: post)%list) ->
  map_delete k (pre ++ (k, v) :: post)%list = (pre ++ post)%list.
Proof.
  intros Hnd. rewrite map_app in Hnd. simpl in Hnd.
  apply NoDup_remove in Hnd as [_ Hn].
  rewrite in_app_iff in Hn.
  assert (Happ : forall l1 l2 : list (string * V),
             map_delete k (l1 ++ l2)%list = (map_delete k l1 ++ map_delete k l2)%list)
    by (intros; apply filter_app).
  rewrite Happ.
  assert (Hcons : map_delete k ((k, v) :: post) = map_delete k post)
    by (unfold map_delete; simpl; now rewrite String.eqb_refl).
  rewrite Hcons, !map_delete_absent; auto.
Qed.

(** C9: when the dropped socket hosts the session [(k, r)] and hosts none
    of the sessions before it in registry order, [disconnect] sends
    [liveEnded { reason: 'teacher_disconnected' }] to group [k] only and
    removes that session only: every other session, including later ones
    hosted by the same socket, stays in the registry (the dropped socket
    has already left all its groups). *)
Theorem disconnect_ends_first_hosted st sock pre k r post :
  liveRooms st = (pre ++ (k, r) :: post)%list ->
  NoDup (map fst (liveRooms st)) ->
  Forall (fun kr => hostSocket (snd kr) <> sock) pre ->
  hostSocket r = sock ->
  disconnect st sock
    = Ret (mkState (pre ++ post)%list (leaveAll sock (groups st)))
          [(ToGroup k, MLiveEnded "teacher_disconnected")].
Proof.
  intros Hl Hnd Hpre Hr. unfold disconnect. rewrite Hl.
  rewrite (find_hosted_app _ _ _ _ _ Hpre Hr).
  rewrite Hl in Hnd. now rewrite map_delete_app.
Qed.

(** ** Group membership of a case-variant join *)

(** The sockets reached by the outputs of an outcome, evaluated against
    the group memberships of the state they were emitted in. *)
Definition delivered (gs : list (Socket * string)) (caller : Socket)
  (o : Outcome) : list Socket :=
  flat_map (fun out => recipients gs caller (fst out)) (outcome_out o).

Definition st_joined_lower : State :=
  outcome_state (joinLive st_created aliceS alice "qz-abc123").
Definition st_lower_q1 : State :=
  outcome_state (nextQuestion st_joined_lower hostS "QZ-ABC123").
Definition st_lower_q2 : State :=
  outcome_state (nextQuestion st_lower_q1 hostS "QZ-ABC123").

(** C10: in the example session (canonical code ["QZ-ABC123"]), Alice
    joins with ["qz-abc123"]: she is replied success and recorded as a
    participant, but is subscribed to group ["qz-abc123"] only, not to
    ["QZ-ABC123"]; the host's broadcasts of [nextQuestion] (both
    questions and the completion) and of [endLive] go to group
    ["QZ-ABC123"] and reach the host only, never Alice; the
    teacher-disconnect broadcast, sent after the host has left its
    groups, reaches nobody. *)
Theorem join_case_variant_misses_broadcasts :
  In (Reply, MSuccess) (outcome_out (joinLive st_created aliceS alice "qz-abc123")) /\
  participant_of st_joined_lower "QZ-ABC123" "A1"
    = Some (mkParticipant "Alice" 0 []) /\
  In (aliceS, "qz-abc123") (groups st_joined_lower) /\
  ~ In aliceS (members (groups st_joined_lower) "QZ-ABC123") /\
  outcome_out (nextQuestion st_joined_lower hostS "QZ-ABC123")
    = [(ToGroup "QZ-ABC123", MNewQuestion (Some q0) 0)] /\
  delivered (groups st_joined_lower) hostS
    (nextQuestion st_joined_lower hostS "QZ-ABC123") = [hostS] /\
  delivered (groups st_lower_q1) hostS
    (nextQuestion st_lower_q1 hostS "QZ-ABC123") = [hostS] /\
  delivered (groups st_lower_q2) hostS
    (nextQuestion st_lower_q2 hostS "QZ-ABC123") = [hostS] /\
  delivered (groups st_lower_q1) hostS
    (endLive st_lower_q1 hostS "QZ-ABC123") = [hostS] /\
  delivered (groups (outcome_state (disconnect st_lower_q1 hostS))) hostS
    (disconnect st_lower_q1 hostS) = [].
Proof.
  vm_compute. repeat split.
  - right; right; left; reflexivity.
  - right; left; reflexivity.
  - intros [H|H]; [discriminate|exact H].
Qed.

(** ** Witnesses *)

Definition room_q1 : Room :=
  with_index (mkRoom "QZ-ABC123" hostS "quiz-1" quiz2 0
                     [("A1", mkParticipant "Alice" 0 [])]) 1.

Lemma submitAnswer_correct_increments_witness :
  exists st' out,
    submitAnswer st_q1 aliceS alice "QZ-ABC123" 1%Z = Ret st' out /\
    score_of st' "QZ-ABC123" (uid alice) = Some 1 /\
    option_map (fun p' => answers_get 0 (answers p'))
      (participant_of st' "QZ-ABC123" (uid alice)) = Some (Some 1%Z).
Proof.
  exact (submitAnswer_correct_increments st_q1 aliceS alice "QZ-ABC123"
           room_q1 (mkParticipant "Alice" 0 []) q0 1%Z
           eq_refl eq_refl ltac:(vm_compute; lia) eq_refl
           ltac:(simpl; left; reflexivity)).
Defined.

Lemma nextQuestion_ends_after_len_plus_one_witness :
  (forall i, (i < 2)%nat ->
     exists q, nth_error (questions quiz2) i = Some q /\
       outcome_out (nextQuestion (nq_times st_created hostS "QZ-ABC123" i)
                                 hostS "QZ-ABC123")
         = [(ToGroup "QZ-ABC123", MNewQuestion (Some q) (Z.of_nat i))]) /\
  map_get "QZ-ABC123" (liveRooms (nq_times st_created hostS "QZ-ABC123" 2))
    = Some (with_index (mkRoom "QZ-ABC123" hostS "quiz-1" quiz2 0 []) 2) /\
  exists st_end,
    nextQuestion (nq_times st_created hostS "QZ-ABC123" 2) hostS "QZ-ABC123"
      = Ret st_end [(ToGroup "QZ-ABC123", MLiveEnded "quiz_completed")] /\
    map_get "QZ-ABC123" (liveRooms st_end) = None /\
    forall s', nextQuestion st_end s' "QZ-ABC123" = Ret st_end [].
Proof.
  exact (nextQuestion_ends_after_len_plus_one st_created hostS "QZ-ABC123"
           (mkRoom "QZ-ABC123" hostS "quiz-1" quiz2 0 [])
           eq_refl eq_refl eq_refl).
Defined.

Lemma non_host_calls_are_noops_witness :
  nextQuestion st_joined aliceS "QZ-ABC123" = Ret st_joined [] /\
  endLive st_joined aliceS "QZ-ABC123" = Ret st_joined [].
Proof.
  apply non_host_calls_are_noops.
  intros room H. vm_compute in H. injection H as <-. simpl. discriminate.
Defined.

Lemma createLive_failure_no_mutation_witness :
  exists err, createLive st_created aliceS alice "quiz-1" (FetchFound quiz2)
                [draw0] = Ret st_created [(Reply, MError err)].
Proof.
  apply createLive_failure_no_mutation.
  apply FailRole. discriminate.
Defined.

Lemma submitAnswer_peer_notification_uniform_witness :
  let peer := (ToGroupExcept "QZ-ABC123" aliceS, MAnswerPeer "Alice") in
  exists st1 st2,
    submitAnswer st_q1 aliceS alice "QZ-ABC123" 1%Z
      = Ret st1 [(ToSocket hostS, MAnswerHost "Alice" true); peer] /\
    submitAnswer st_q1 aliceS alice "QZ-ABC123" 0%Z
      = Ret st2 [(ToSocket hostS, MAnswerHost "Alice" false); peer].
Proof.
  exact (submitAnswer_peer_notification_uniform st_q1 aliceS alice "QZ-ABC123"
           room_q1 (mkParticipant "Alice" 0 []) q0 1%Z 0%Z
           eq_refl eq_refl ltac:(vm_compute; lia) eq_refl).
Defined.

Definition room_b : Room := mkRoom "QZ-BBB111" hostS "quiz-1" quiz2 0 [].
Definition room_c : Room := mkRoom "QZ-CCC222" hostS "quiz-1" quiz2 0 [].
Definition room_o : Room := mkRoom "QZ-OOO000" 7 "quiz-2" quiz2 0 [].
Definition st_two_hosted : State :=
  mkState [("QZ-OOO000", room_o); ("QZ-BBB111", room_b); ("QZ-CCC222", room_c)]
          [(hostS, "QZ-BBB111"); (hostS, "QZ-CCC222"); (7, "QZ-OOO000")].

Lemma disconnect_ends_first_hosted_witness :
  disconnect st_two_hosted hostS
    = Ret (mkState [("QZ-OOO000", room_o); ("QZ-CCC222", room_c)]
                   (leaveAll hostS (groups st_two_hosted)))
          [(ToGroup "QZ-BBB111", MLiveEnded "teacher_disconnected")].
Proof.
  apply (disconnect_ends_first_hosted st_two_hosted hostS
           [("QZ-OOO000", room_o)] "QZ-BBB111" room_b [("QZ-CCC222", room_c)]).
  - reflexivity.
  - vm_compute. repeat constructor; simpl; intuition discriminate.
  - repeat constructor. simpl. discriminate.
  - reflexivity.
Defined.

(** ** Reachable states *)

Lemma run_preserves (P : State -> Prop) :
  (forall st e, P st -> P (outcome_state (step st e))) ->
  forall es st, P st -> P (run st es).
Proof.
  intros Hstep es. induction es as [|e es IH]; intros st Hst; simpl;
    [exact Hst|].
  apply IH, Hstep, Hst.
Qed.

Lemma inv_run es : Inv (run init es).
Proof. apply run_preserves; [exact step_inv | constructor]. Qed.

(** ** Upper-casing and generated codes *)

Lemma ascii_toUpper_idem c : ascii_toUpper (ascii_toUpper c) = ascii_toUpper c.
Proof. destruct c as [[] [] [] [] [] [] [] []]; reflexivity. Qed.

Lemma toUpperCase_idem s : toUpperCase (toUpperCase s) = toUpperCase s.
Proof.
  induction s as [|c s IH]; simpl; [reflexivity|].
  now rewrite ascii_toUpper_idem, IH.
Qed.

Lemma toUpperCase_append a b :
  toUpperCase (a ++ b) = toUpperCase a ++ toUpperCase b.
Proof. induction a as [|c a IH]; simpl; [reflexivity|]. now rewrite IH. Qed.

Lemma toUpperCase_length s : String.length (toUpperCase s) = String.length s.
Proof. induction s as [|c s IH]; simpl; congruence. Qed.

Lemma substring_length n m s : (String.length (substring n m s) <= m)%nat.
Proof.
  revert n m. induction s as [|c s IH]; intros [|n] [|m]; simpl; try lia.
  - specialize (IH 0 m). lia.
  - apply IH.
  - apply IH.
Qed.

(** X1: every code produced by [generateCode] is ["QZ-"] followed by at
    most 6 characters, and is left unchanged by [toUpperCase]: it is
    already in the canonical case that [joinLive] looks codes up in. *)
Theorem generateCode_canonical r :
  (exists suffix : string, generateCode r = ("QZ-" ++ suffix)%string /\
                           (String.length suffix <= 6)%nat) /\
  toUpperCase (generateCode r) = generateCode r.
Proof.
  unfold generateCode. split.
  - eexists; split; [reflexivity|].
    rewrite toUpperCase_length. apply substring_length.
  - rewrite toUpperCase_append, toUpperCase_idem. reflexivity.
Qed.

(** ** Keys of the registry *)

Definition keys {V} (m : list (string * V)) : list string := map fst m.

Lemma map_get_None_iff {V} k (m : list (string * V)) :
  map_get k m = None <-> ~ In k (keys m).
Proof.
  unfold keys. induction m as [|[k' v'] m IH]; simpl; [tauto|].
  destruct (String.eqb k k') eqn:E.
  - apply String.eqb_eq in E. split; [discriminate|]. intros H; exfalso; auto.
  - apply String.eqb_neq in E. rewrite IH. intuition congruence.
Qed.

Lemma keys_map_set {V} k (v : V) m :
  keys (map_set k v m) = if map_has k m then keys m else (keys m ++ [k])%list.
Proof.
  unfold map_has, keys. induction m as [|[k' v'] m IH]; simpl; [reflexivity|].
  destruct (String.eqb k k') eqn:E; simpl; [reflexivity|].
  rewrite IH. destruct (map_get k m); reflexivity.
Qed.

Lemma keys_map_set_present {V} k (v : V) m w :
  map_get k m = Some w -> keys (map_set k v m) = keys m.
Proof. intros H. rewrite keys_map_set. unfold map_has. now rewrite H. Qed.

Lemma keys_map_delete {V} k (m : list (string * V)) :
  keys (map_delete k m) = filter (fun k' => negb (String.eqb k k')) (keys m).
Proof.
  unfold keys, map_delete. induction m as [|[k' v'] m IH]; simpl;
    [reflexivity|].
  destruct (String.eqb k k'); simpl; now rewrite IH.
Qed.

Lemma pick_code_is_generated rooms draws code :
  pick_code rooms draws = Some code -> exists r, code = generateCode r.
Proof.
  induction draws as [|r rs IH]; simpl; [discriminate|].
  destruct (map_has _ _); [exact IH|]. intros H; injection H as <-; eauto.
Qed.

(** ** Invariants on the stored sessions *)

Section PairFacts.
Context {V : Type}.
Variable Q : string * V -> Prop.

Lemma Forall_map_set k v (m : list (string * V)) :
  Forall Q m -> Q (k, v) -> Forall Q (map_set k v m).
Proof.
  intros Hm Hv. induction Hm as [|[k' v'] m Hx Hm IH]; simpl.
  - repeat constructor; exact Hv.
  - destruct (String.eqb k k') eqn:E; constructor; auto.
    apply String.eqb_eq in E. subst. exact Hv.
Qed.

Lemma Forall_map_get k v (m : list (string * V)) :
  Forall Q m -> map_get k m = Some v -> Q (k, v).
Proof.
  induction 1 as [|[k' v'] m Hx Hm IH]; simpl; [discriminate|].
  destruct (String.eqb k k') eqn:E; [|exact IH].
  apply String.eqb_eq in E. subst. intros H; injection H as <-. exact Hx.
Qed.

Lemma Forall_map_delete k (m : list (string * V)) :
  Forall Q m -> Forall Q (map_delete k m).
Proof.
  intros Hm. unfold map_delete. apply Forall_forall. intros x Hx.
  apply filter_In in Hx as [Hx _]. exact (proj1 (Forall_forall _ _) Hm x Hx).
Qed.
End PairFacts.

(** Every session is stored under its own [room.code], and that code is
    in canonical (upper) case. *)
Definition CanonInv (st : State) : Prop :=
  Forall (fun kv => rcode (snd kv) = fst kv /\ toUpperCase (fst kv) = fst kv)
         (liveRooms st).

Lemma step_canon st e : CanonInv st -> CanonInv (outcome_state (step st e)).
Proof.
  unfold CanonInv. intros H.
  destruct e as [s u q f d|s u c|s c|s u c a|s c|s]; simpl.
  - unfold createLive.
    destruct (negb _); [exact H|]. destruct f as [| |qz]; try exact H.
    destruct (negb _); [exact H|].
    destruct (pick_code _ _) eqn:P; [|exact H]. simpl.
    apply Forall_map_set; [exact H|]. simpl. split; [reflexivity|].
    destruct (pick_code_is_generated _ _ _ P) as [r ->].
    apply generateCode_canonical.
  - unfold joinLive. destruct (map_get _ _) eqn:G; simpl; [|exact H].
    apply Forall_map_set; [exact H|].
    exact (Forall_map_get _ _ _ _ H G).
  - unfold nextQuestion. destruct (map_get _ _) eqn:G; simpl; [|exact H].
    destruct (negb _); [exact H|].
    destruct (_ <=? _)%nat; simpl.
    + now apply Forall_map_delete.
    + apply Forall_map_set; [exact H|].
      exact (Forall_map_get _ _ _ _ H G).
  - unfold submitAnswer. destruct (map_get c _) eqn:G; simpl; [|exact H].
    destruct (map_get (uid u) _); simpl; [|exact H].
    destruct (nth_z _ _); simpl; apply Forall_map_set; auto;
      exact (Forall_map_get _ _ _ _ H G).
  - unfold endLive. destruct (map_get _ _); simpl; [|exact H].
    destruct (negb _); [exact H|]. now apply Forall_map_delete.
  - unfold disconnect. destruct (find_hosted _ _); simpl; [|exact H].
    now apply Forall_map_delete.
Qed.

(** X3: in every reachable state, a live session found under key [k] has
    [room.code = k], [k] is in canonical upper case, and [joinLive] with
    any ASCII code whose upper-cased form is [k] (in particular [k]
    itself) succeeds: it replies [{ success: true }]. *)
Theorem live_code_canonical_joinable es k r :
  map_get k (liveRooms (run init es)) = Some r ->
  rcode r = k /\ toUpperCase k = k /\
  forall s u c, ascii_only c = true -> toUpperCase c = k ->
    In (Reply, MSuccess) (outcome_out (joinLive (run init es) s u c)).
Proof.
  intros G.
  assert (Hc : CanonInv (run init es))
    by (apply (run_preserves CanonInv step_canon); constructor).
  destruct (Forall_map_get _ _ _ _ Hc G) as [H1 H2]; simpl in *.
  split; [exact H1|]. split; [exact H2|].
  intros s u c _ Hu. unfold joinLive. rewrite Hu, G. simpl.
  right; right; left; reflexivity.
Qed.

(** ** Group memberships *)

Lemma join_incl s g gs : incl gs (join s g gs).
Proof.
  unfold join. destruct (existsb _ _); [apply incl_refl|].
  intros x Hx. apply in_or_app. now left.
Qed.

Lemma join_In s g gs : In (s, g) (join s g gs).
Proof.
  unfold join. destruct (existsb _ _) eqn:E.
  - apply existsb_exists in E as [[s' g'] [Hin Heq]]. simpl in Heq.
    apply andb_true_iff in Heq as [H1 H2].
    apply Nat.eqb_eq in H1. apply String.eqb_eq in H2. subst. exact Hin.
  - apply in_or_app. right. now left.
Qed.

Lemma step_groups_grow st e :
  (forall s, e <> EDisconnect s) ->
  incl (groups st) (groups (outcome_state (step st e))).
Proof.
  intros Hd.
  destruct e as [s u q f d|s u c|s c|s u c a|s c|s]; simpl.
  - unfold createLive.
    destruct (negb _); [apply incl_refl|]. destruct f; try apply incl_refl.
    destruct (negb _); [apply incl_refl|].
    destruct (pick_code _ _); [apply join_incl|apply incl_refl].
  - unfold joinLive. destruct (map_get _ _); [apply join_incl|apply incl_refl].
  - unfold nextQuestion. destruct (map_get _ _); [|apply incl_refl].
    destruct (negb _); [apply incl_refl|].
    destruct (_ <=? _)%nat; apply incl_refl.
  - unfold submitAnswer. destruct (map_get c _); [|apply incl_refl].
    destruct (map_get (uid u) _); [|apply incl_refl].
    destruct (nth_z _ _); apply incl_refl.
  - unfold endLive. destruct (map_get _ _); [|apply incl_refl].
    destruct (negb _); apply incl_refl.
  - exfalso. exact (Hd s eq_refl).
Qed.

Lemma disconnect_groups st s :
  groups (outcome_state (disconnect st s)) = leaveAll s (groups st).
Proof. unfold disconnect. now destruct (find_hosted _ _). Qed.

Lemma In_leaveAll s s' g gs :
  In (s', g) (leaveAll s gs) <-> In (s', g) gs /\ s' <> s.
Proof.
  unfold leaveAll. rewrite filter_In. simpl.
  rewrite negb_true_iff, Nat.eqb_neq. reflexivity.
Qed.

(** X4: the server itself never calls [socket.leave]; the only way a
    socket loses a group membership is its own disconnection, at which
    Socket.IO removes it from every room. So a membership (socket [s],
    group [g]) present before an event is still present after it exactly
    when the event is not the disconnection of [s]. *)
Theorem group_membership_persists st e s g :
  In (s, g) (groups st) ->
  (In (s, g) (groups (outcome_state (step st e))) <-> e <> EDisconnect s).
Proof.
  intros Hin. destruct e as [s1 u q f d|s1 u c|s1 c|s1 u c a|s1 c|s1].
  1-5: split; [intros _; discriminate|intros _];
       apply (step_groups_grow st); [intros s2; discriminate|exact Hin].
  simpl. rewrite disconnect_groups, In_leaveAll. split.
  - intros [_ Hne] He. injection He as ->. exact (Hne eq_refl).
  - intros Hne. split; [exact Hin|]. intros ->. exact (Hne eq_refl).
Qed.

(** The sockets that disconnect during a sequence of events. *)
Definition disconnected (e : Event) : list Socket :=
  match e with EDisconnect s => [s] | _ => [] end.

Fixpoint disconnected_in (es : list Event) : list Socket :=
  match es with
  | [] => []
  | e :: es' => disconnected e ++ disconnected_in es'
  end.

(** Every session's host is either among the sockets [D] known to have
    disconnected or a member of the session's group. *)
Definition HostInv (D : list Socket) (st : State) : Prop :=
  Forall (fun kv => In (hostSocket (snd kv)) D \/
                    In (hostSocket (snd kv), fst kv) (groups st))
         (liveRooms st).

Lemma host_incl D D' gs gs' (m : list (string * Room)) :
  incl D D' -> incl gs gs' ->
  Forall (fun kv => In (hostSocket (snd kv)) D \/
                    In (hostSocket (snd kv), fst kv) gs) m ->
  Forall (fun kv => In (hostSocket (snd kv)) D' \/
                    In (hostSocket (snd kv), fst kv) gs') m.
Proof.
  intros HD Hi. apply Forall_impl. intros kv [Hk|Hk]; [left|right]; auto.
Qed.

Lemma incl_app_l_self (D E : list Socket) : incl D (D ++ E).
Proof. intros x Hx. apply in_or_app. now left. Qed.

Lemma step_host D st e :
  HostInv D st -> HostInv (D ++ disconnected e) (outcome_state (step st e)).
Proof.
  unfold HostInv. intros H.
  assert (HD : incl D (D ++ disconnected e)) by apply incl_app_l_self.
  assert (H0 := host_incl _ _ _ _ _ HD (incl_refl _) H).
  destruct e as [s u q f d|s u c|s c|s u c a|s c|s]; simpl.
  - unfold createLive.
    destruct (negb _); [exact H0|]. destruct f as [| |qz]; try exact H0.
    destruct (negb _); [exact H0|].
    destruct (pick_code _ _) eqn:P; [|exact H0]. simpl.
    apply Forall_map_set; [|right; apply join_In].
    exact (host_incl _ _ _ _ _ (incl_refl _) (join_incl _ _ _) H0).
  - unfold joinLive. destruct (map_get _ _) eqn:G; simpl; [|exact H0].
    apply Forall_map_set.
    + exact (host_incl _ _ _ _ _ (incl_refl _) (join_incl _ _ _) H0).
    + destruct (Forall_map_get _ _ _ _ H0 G) as [Hk|Hk]; [now left|].
      right. apply join_incl. exact Hk.
  - unfold nextQuestion. destruct (map_get _ _) eqn:G; simpl; [|exact H0].
    destruct (negb _); [exact H0|].
    destruct (_ <=? _)%nat; simpl.
    + now apply Forall_map_delete.
    + apply Forall_map_set; [exact H0|].
      exact (Forall_map_get _ _ _ _ H0 G).
  - unfold submitAnswer. destruct (map_get c _) eqn:G; simpl; [|exact H0].
    destruct (map_get (uid u) _); simpl; [|exact H0].
    destruct (nth_z _ _); simpl; apply Forall_map_set; auto;
      exact (Forall_map_get _ _ _ _ H0 G).
  - unfold endLive. destruct (map_get _ _); simpl; [|exact H0].
    destruct (negb _); [exact H0|]. now apply Forall_map_delete.
  - rewrite disconnect_groups.
    assert (Hr : Forall (fun kv => In (hostSocket (snd kv)) (D ++ [s]) \/
                   In (hostSocket (snd kv), fst kv) (leaveAll s (groups st)))
                 (liveRooms st)).
    { apply (Forall_impl _ (P := fun kv => In (hostSocket (snd kv)) D \/
               In (hostSocket (snd kv), fst kv) (groups st))); [|exact H].
      intros kv [Hk|Hk]; [left; apply in_or_app; now left|].
      destruct (Nat.eq_dec (hostSocket (snd kv)) s) as [E|E].
      - left. apply in_or_app. right. rewrite E. now left.
      - right. apply In_leaveAll. now split. }
    unfold disconnect. destruct (find_hosted _ _); simpl; [|exact Hr].
    now apply Forall_map_delete.
Qed.

Lemma run_host es : forall D st,
  HostInv D st -> HostInv (D ++ disconnected_in es) (run st es).
Proof.
  induction es as [|e es IH]; intros D st H; simpl.
  - now rewrite app_nil_r.
  - rewrite app_assoc. apply IH, step_host, H.
Qed.

Lemma In_members gs s g : In (s, g) gs -> In s (members gs g).
Proof.
  intros H. unfold members. apply (in_map fst _ (s, g)).
  apply filter_In. split; [exact H|apply String.eqb_refl].
Qed.

(** X5: in every reachable state, the host socket of each live session is
    a member of the session's group unless that host socket has
    disconnected, so every [io.to(code)] broadcast of such a session
    ([newQuestion], [liveEnded]) reaches its host. *)
Theorem host_in_own_group es k r :
  map_get k (liveRooms (run init es)) = Some r ->
  ~ In (hostSocket r) (disconnected_in es) ->
  In (hostSocket r) (members (groups (run init es)) k).
Proof.
  intros G Hnd. apply In_members.
  assert (Hh : HostInv ([] ++ disconnected_in es) (run init es))
    by (apply run_host; constructor).
  destruct (Forall_map_get _ _ _ _ Hh G) as [Hk|Hk]; [contradiction|exact Hk].
Qed.

Definition is_createLive (e : Event) : bool :=
  match e with ECreateLive _ _ _ _ _ => true | _ => false end.

Lemma incl_filter_keys k (l : list string) :
  incl (filter (fun k' => negb (String.eqb k k')) l) l.
Proof. intros x Hx. now apply filter_In in Hx as [Hx _]. Qed.

(** X6: only [createLive] registers sessions: every other event leaves
    the set of live codes the same or smaller. *)
Theorem only_createLive_adds_sessions st e :
  is_createLive e = false ->
  incl (keys (liveRooms (outcome_state (step st e)))) (keys (liveRooms st)).
Proof.
  intros Hc. destruct e as [s u q f d|s u c|s c|s u c a|s c|s];
    simpl in *; try discriminate.
  - unfold joinLive. destruct (map_get _ _) eqn:G; simpl; [|apply incl_refl].
    rewrite (keys_map_set_present _ _ _ _ G). apply incl_refl.
  - unfold nextQuestion. destruct (map_get _ _) eqn:G; simpl; [|apply incl_refl].
    destruct (negb _); [apply incl_refl|].
    destruct (_ <=? _)%nat; simpl.
    + rewrite keys_map_delete. apply incl_filter_keys.
    + rewrite (keys_map_set_present _ _ _ _ G). apply incl_refl.
  - unfold submitAnswer. destruct (map_get c _) eqn:G; simpl; [|apply incl_refl].
    destruct (map_get (uid u) _); simpl; [|apply incl_refl].
    destruct (nth_z _ _); simpl;
      rewrite (keys_map_set_present _ _ _ _ G); apply incl_refl.
  - unfold endLive. destruct (map_get _ _); simpl; [|apply incl_refl].
    destruct (negb _); [apply incl_refl|]. simpl.
    rewrite keys_map_delete. apply incl_filter_keys.
  - unfold disconnect. destruct (find_hosted _ _); simpl; [|apply incl_refl].
    rewrite keys_map_delete. apply incl_filter_keys.
Qed.

(** ** Handler-level behaviour *)

(** X7: [joinLive] with a code whose upper-cased form names a live session
    (re)creates the caller's participant with score 0 and no answers
    (a rejoin resets it), leaves every other participant and the session's
    [currentIndex] as they were, subscribes the caller to the group named
    by the submitted code, tells the host the new participant count and
    replies success. *)
Theorem joinLive_registers_participant st sock user code room :
  map_get (toUpperCase code) (liveRooms st) = Some room ->
  exists st' out room',
    joinLive st sock user code = Ret st' out /\
    map_get (toUpperCase code) (liveRooms st') = Some room' /\
    map_get (uid user) (participants room') = Some (mkParticipant (uname user) 0 []) /\
    (forall u', u' <> uid user ->
       map_get u' (participants room') = map_get u' (participants room)) /\
    currentIndex room' = currentIndex room /\
    In (sock, code) (groups st') /\
    In (ToSocket (hostSocket room),
        MStudentJoined (uname user) (length (participants room'))) out /\
    In (Reply, MSuccess) out.
Proof.
  intros G. unfold joinLive. rewrite G.
  do 3 eexists. split; [reflexivity|]. simpl.
  rewrite map_get_set_eq. split; [reflexivity|]. simpl.
  split; [apply map_get_set_eq|].
  split; [intros u' Hu; apply map_get_set_neq; congruence|].
  split; [reflexivity|]. split; [apply join_In|].
  split; [now left|]. right; right; left; reflexivity.
Qed.

(** X8: in every reachable state, a successful [joinLive] on a session
    that has already sent a question ([currentIndex > 0]) privately sends
    the caller the question at [currentIndex - 1], which always exists;
    in the lobby ([currentIndex = 0]) it sends no catch-up question. *)
Theorem joinLive_catch_up es sock user code room :
  map_get (toUpperCase code) (liveRooms (run init es)) = Some room ->
  let out := outcome_out (joinLive (run init es) sock user code) in
  (0 < currentIndex room ->
   exists q, nth_error (questions (quiz room)) (currentIndex room - 1) = Some q /\
     In (ToSocket sock, MNewQuestion (Some q) (Z.of_nat (currentIndex room) - 1)) out) /\
  (currentIndex room = 0 -> length out = 3).
Proof.
  intros G out. subst out. unfold joinLive. rewrite G. simpl.
  pose proof (all_values_get _ _ _ _ (inv_run es) G) as Hb. unfold index_ok in Hb.
  split.
  - intros Hci.
    destruct (nth_error (questions (quiz room)) (currentIndex room - 1)) as [q|] eqn:N.
    + exists q. split; [reflexivity|].
      replace (0 <? currentIndex room)%nat with true
        by (symmetry; apply Nat.ltb_lt; exact Hci).
      rewrite (nth_z_prev _ _ Hci), N. right; right; right; left; reflexivity.
    + apply nth_error_None in N. lia.
  - intros H0. rewrite H0. reflexivity.
Qed.

(** X9: a [nextQuestion] by the host of a session that has not yet sent
    all its questions broadcasts to the session's group the question at
    [currentIndex] (which exists) with index [currentIndex], and advances
    [currentIndex] by one, leaving the participants unchanged. *)
Theorem nextQuestion_advances st code room :
  map_get code (liveRooms st) = Some room ->
  currentIndex room < length (questions (quiz room)) ->
  exists q st',
    nth_error (questions (quiz room)) (currentIndex room) = Some q /\
    nextQuestion st (hostSocket room) code
      = Ret st' [(ToGroup code, MNewQuestion (Some q) (Z.of_nat (currentIndex room)))] /\
    map_get code (liveRooms st') = Some (with_index room (S (currentIndex room))) /\
    participants (with_index room (S (currentIndex room))) = participants room.
Proof.
  intros G Hlt.
  destruct (nth_error (questions (quiz room)) (currentIndex room)) as [q|] eqn:N;
    [|apply nth_error_None in N; lia].
  exists q. eexists. split; [reflexivity|].
  assert (E : (Z.of_nat (S (currentIndex room)) - 1)%Z = Z.of_nat (currentIndex room))
    by lia.
  unfold nextQuestion. rewrite G, Nat.eqb_refl, E. cbn [negb].
  replace (length (questions (quiz room)) <=? currentIndex room)%nat with false
    by (symmetry; apply Nat.leb_gt; exact Hlt).
  rewrite N. split; [reflexivity|]. simpl.
  split; [apply map_get_set_eq|reflexivity].
Qed.

(** X10: an [endLive] by the host of a live session broadcasts
    [liveEnded { reason: 'ended_by_teacher' }] to its group, removes it
    from the registry, and leaves every other session untouched. *)
Theorem endLive_removes_only_its_session st code room :
  map_get code (liveRooms st) = Some room ->
  exists st',
    endLive st (hostSocket room) code
      = Ret st' [(ToGroup code, MLiveEnded "ended_by_teacher")] /\
    map_get code (liveRooms st') = None /\
    (forall k, k <> code -> map_get k (liveRooms st') = map_get k (liveRooms st)) /\
    groups st' = groups st.
Proof.
  intros G. unfold endLive. rewrite G, Nat.eqb_refl. simpl.
  eexists. split; [reflexivity|]. simpl.
  split; [apply map_get_delete_eq|]. split; [|reflexivity].
  intros k Hk. apply map_get_delete_neq. congruence.
Qed.

Lemma existsb_Z_notin (a : Z) (l : list Z) :
  ~ In a l -> existsb (Z.eqb a) l = false.
Proof.
  intros H. apply Bool.not_true_iff_false. intros E.
  apply existsb_exists in E as [x [Hx Ex]]. apply Z.eqb_eq in Ex. subst.
  contradiction.
Qed.

(** X11: a processed [submitAnswer] whose [answerIndex] is not in the
    current question's [correct] list records the answer under
    [currentIndex - 1], leaves the score unchanged, and tells the host
    [correct: false]. *)
Theorem submitAnswer_incorrect_keeps_score st sock user code room p q ans :
  map_get code (liveRooms st) = Some room ->
  map_get (uid user) (participants room) = Some p ->
  0 < currentIndex room ->
  nth_error (questions (quiz room)) (currentIndex room - 1) = Some q ->
  ~ In ans (correct q) ->
  exists st',
    submitAnswer st sock user code ans
      = Ret st' [(ToSocket (hostSocket room), MAnswerHost (pname p) false);
                 (ToGroupExcept code sock, MAnswerPeer (pname p))] /\
    participant_of st' code (uid user)
      = Some (mkParticipant (pname p) (score p)
                (answers_set (Z.of_nat (currentIndex room) - 1) ans (answers p))).
Proof.
  intros Hr Hp Hci Hq Hn.
  unfold submitAnswer. rewrite Hr, Hp, (nth_z_prev _ _ Hci), Hq.
  rewrite (existsb_Z_notin _ _ Hn).
  eexists; split; [reflexivity|]. apply participant_of_with.
Qed.

Lemma participant_of_with_neq st code room u p u' :
  map_get code (liveRooms st) = Some room -> u' <> u ->
  participant_of
    (mkState (map_set code (with_participant room u p) (liveRooms st))
             (groups st)) code u' = participant_of st code u'.
Proof.
  intros G Hu. unfold participant_of; simpl. rewrite map_get_set_eq, G. simpl.
  apply map_get_set_neq. congruence.
Qed.

(** X12: whatever its outcome (ignored, processed or throwing),
    [submitAnswer] changes no other session, no other participant of the
    session, the session's [currentIndex] and host, nor any group
    membership. *)
Theorem submitAnswer_frame st sock user code ans :
  let st' := outcome_state (submitAnswer st sock user code ans) in
  (forall k, k <> code -> map_get k (liveRooms st') = map_get k (liveRooms st)) /\
  (forall u', u' <> uid user -> participant_of st' code u' = participant_of st code u') /\
  option_map (fun r => (currentIndex r, hostSocket r)) (map_get code (liveRooms st'))
    = option_map (fun r => (currentIndex r, hostSocket r)) (map_get code (liveRooms st)) /\
  groups st' = groups st.
Proof.
  intros st'. subst st'. unfold submitAnswer.
  destruct (map_get code (liveRooms st)) as [room|] eqn:G;
    [|cbn [outcome_state]; rewrite G; repeat split; reflexivity].
  destruct (map_get (uid user) (participants room)) as [p|] eqn:P;
    [|cbn [outcome_state]; rewrite G; repeat split; reflexivity].
  destruct (nth_z _ _); cbn [outcome_state];
    (split; [intros k Hk; simpl; apply map_get_set_neq; congruence|]);
    (split; [intros u' Hu; now apply participant_of_with_neq|]);
    simpl; rewrite map_get_set_eq; split; reflexivity.
Qed.

(** X13: in every reachable state, a [submitAnswer] by a participant of a
    live session throws exactly when the session is still in the lobby
    ([currentIndex = 0]); once a question has been sent it never throws. *)
Theorem submitAnswer_throws_iff_lobby es sock user code room p ans :
  map_get code (liveRooms (run init es)) = Some room ->
  map_get (uid user) (participants room) = Some p ->
  ((exists st' out, submitAnswer (run init es) sock user code ans = Throw st' out)
   <-> currentIndex room = 0).
Proof.
  intros G P.
  pose proof (all_values_get _ _ _ _ (inv_run es) G) as Hb. unfold index_ok in Hb.
  unfold submitAnswer. rewrite G, P.
  destruct (currentIndex room) as [|n] eqn:Ci.
  - unfold nth_z. simpl. split; [reflexivity|]. intros _. do 2 eexists; reflexivity.
  - rewrite <- Ci. assert (Hpos : 0 < currentIndex room) by lia.
    rewrite (nth_z_prev _ _ Hpos).
    destruct (nth_error _ _) eqn:N.
    + split; [intros (st' & out & H); discriminate | lia].
    + apply nth_error_None in N. lia.
Qed.

(** ** Authentication *)

Lemma js_or_cases a b :
  (exists s, a = Some s /\ s <> "" /\ js_or a b = s) \/
  ((a = None \/ a = Some "") /\ js_or a b = b).
Proof.
  unfold js_or, js_or_opt. destruct a as [s|]; [|right; auto].
  destruct (String.eqb s "") eqn:E.
  - apply String.eqb_eq in E. subst. right. auto.
  - apply String.eqb_neq in E. left. eauto.
Qed.

(** X14: the middleware admits a connection only when the handshake
    carries a non-empty token that [verifyIdToken] accepts, and then
    attaches the user built from the decoded token; a missing or empty
    token is refused before [verifyIdToken] is consulted. *)
Theorem authenticate_requires_verified_token tok verify u :
  authenticate tok verify = AuthOk u ->
  exists t d, tok = Some t /\ t <> "" /\ verify t = VerifyOk d /\
              u = user_of_token d.
Proof.
  unfold authenticate.
  destruct (js_or_opt tok None) as [t|] eqn:T; [|discriminate].
  destruct (verify t) as [|d] eqn:V; [discriminate|].
  intros H; injection H as <-.
  unfold js_or_opt in T. destruct tok as [s|]; [|discriminate].
  destruct (String.eqb s "") eqn:E; [discriminate|].
  injection T as <-. apply String.eqb_neq in E. eauto 6.
Qed.

(** X15: the user attached to a socket always has a non-empty display
    name ([name], else the part of [email] before ['@'], else
    ['Anonyme']), and has role ['teacher'] exactly when the token's
    [role] custom claim is ['teacher'] (a missing or empty claim gives
    ['student']). *)
Theorem user_of_token_name_role d :
  uname (user_of_token d) <> "" /\
  (role (user_of_token d) = "teacher" <-> d_role d = Some "teacher").
Proof.
  unfold user_of_token; simpl. split.
  - destruct (js_or_cases (js_or_opt (d_name d) (option_map split_at_first (d_email d)))
                          "Anonyme") as [(s & _ & Hs & ->)|[_ ->]];
      [exact Hs|discriminate].
  - destruct (js_or_cases (d_role d) "student") as [(s & Hr & _ & ->)|[[Hr|Hr] ->]];
      rewrite Hr; split; congruence.
Qed.

(** X16: a connection authenticated with token [t], whose verified
    claims [d] carry no ['teacher'] role claim, can never create a live
    session: [createLive] replies the teacher-only error and leaves the
    state unchanged, before the quiz is fetched. *)
Theorem non_teacher_token_cannot_create t d verify u st sock qid fetch draws :
  authenticate (Some t) verify = AuthOk u ->
  verify t = VerifyOk d ->
  d_role d <> Some "teacher" ->
  createLive st sock u qid fetch draws
    = Ret st [(Reply, MError "Seuls les professeurs peuvent créer un live")].
Proof.
  intros Ha Hv Hnt.
  destruct (authenticate_requires_verified_token _ _ _ Ha)
    as (t' & d' & Ht & _ & V & ->).
  injection Ht as <-. rewrite Hv in V. injection V as <-.
  unfold createLive.
  destruct (String.eqb (role (user_of_token d)) "teacher") eqn:E; [|reflexivity].
  apply String.eqb_eq, user_of_token_name_role in E.
  exfalso. exact (Hnt E).
Qed.

(** ** Session creation and scores *)

(** X17: a [createLive] by a teacher who owns the fetched quiz, once the
    code loop has found a code, registers under that code (which was not
    live before) a session hosted by the caller, on the fetched quiz, with
    [currentIndex = 0] and no participants; every other session is
    unchanged; the caller joins the session's group, gets [{ code }] on
    its callback and a [liveCreated] event. *)
Theorem createLive_success st sock user qid quizData draws code :
  role user = "teacher" ->
  ownerUid quizData = uid user ->
  pick_code (liveRooms st) draws = Some code ->
  exists st',
    createLive st sock user qid (FetchFound quizData) draws
      = Ret st' [(Reply, MCode code); (ToSocket sock, MLiveCreated code)] /\
    map_get code (liveRooms st) = None /\
    map_get code (liveRooms st') = Some (mkRoom code sock qid quizData 0 []) /\
    (forall k, k <> code -> map_get k (liveRooms st') = map_get k (liveRooms st)) /\
    In (sock, code) (groups st').
Proof.
  intros Hr Ho P. unfold createLive. rewrite Hr, Ho, String.eqb_refl. simpl.
  rewrite String.eqb_refl. simpl. rewrite P.
  eexists. split; [reflexivity|]. simpl.
  pose proof (pick_code_fresh _ _ _ P) as F. unfold map_has in F.
  split; [destruct (map_get code (liveRooms st)); [discriminate|reflexivity]|].
  split; [apply map_get_set_eq|]. split; [|apply join_In].
  intros k Hk. apply map_get_set_neq. congruence.
Qed.

Lemma participant_of_set c r rooms gs k u :
  participant_of (mkState (map_set c r rooms) gs) k u
  = if String.eqb k c then map_get u (participants r)
    else participant_of (mkState rooms gs) k u.
Proof.
  unfold participant_of; simpl. destruct (String.eqb k c) eqn:E.
  - apply String.eqb_eq in E. subst. now rewrite map_get_set_eq.
  - apply String.eqb_neq in E. rewrite map_get_set_neq by congruence. reflexivity.
Qed.

Lemma participant_of_delete c rooms gs k u :
  participant_of (mkState (map_delete c rooms) gs) k u
  = if String.eqb k c then None else participant_of (mkState rooms gs) k u.
Proof.
  unfold participant_of; simpl. destruct (String.eqb k c) eqn:E.
  - apply String.eqb_eq in E. subst. now rewrite map_get_delete_eq.
  - apply String.eqb_neq in E. rewrite map_get_delete_neq by congruence. reflexivity.
Qed.

Lemma participant_of_state st gs k u :
  participant_of (mkState (liveRooms st) gs) k u = participant_of st k u.
Proof. reflexivity. Qed.

Definition is_joinLive (e : Event) : bool :=
  match e with EJoinLive _ _ _ => true | _ => false end.

Ltac same_participant Hp Hp' :=
  cbn [outcome_state] in Hp'; rewrite ?participant_of_state in Hp';
  rewrite Hp in Hp';
  injection Hp' as <-; lia.

(** X18: scores never decrease except through [joinLive] (which resets a
    rejoining participant): after any other event, a participant present
    both before and after in the same session has a score at least as
    high as before. *)
Theorem scores_monotone_except_join st e k u p p' :
  is_joinLive e = false ->
  participant_of st k u = Some p ->
  participant_of (outcome_state (step st e)) k u = Some p' ->
  score p <= score p'.
Proof.
  intros Hj Hp Hp'.
  destruct e as [s u0 q f d|s u0 c|s c|s u0 c a|s c|s]; simpl in Hj, Hp';
    try discriminate.
  - unfold createLive in Hp'.
    destruct (negb _); [same_participant Hp Hp'|].
    destruct f as [| |qz]; try (same_participant Hp Hp').
    destruct (negb _); [same_participant Hp Hp'|].
    destruct (pick_code _ _) eqn:P; [|same_participant Hp Hp'].
    cbn [outcome_state] in Hp'. rewrite participant_of_set in Hp'.
    destruct (String.eqb k s0) eqn:E; [|same_participant Hp Hp'].
    apply String.eqb_eq in E. subst.
    pose proof (pick_code_fresh _ _ _ P) as F. unfold map_has in F.
    unfold participant_of in Hp. destruct (map_get s0 (liveRooms st)); discriminate.
  - unfold nextQuestion in Hp'.
    destruct (map_get c (liveRooms st)) as [room|] eqn:G; [|same_participant Hp Hp'].
    destruct (negb _); [same_participant Hp Hp'|].
    destruct (_ <=? _)%nat; cbn [outcome_state] in Hp'.
    + rewrite participant_of_delete in Hp'.
      destruct (String.eqb k c); [discriminate|same_participant Hp Hp'].
    + rewrite participant_of_set in Hp'.
      destruct (String.eqb k c) eqn:E; [|same_participant Hp Hp'].
      apply String.eqb_eq in E. subst. unfold participant_of in Hp.
      rewrite G in Hp. simpl in Hp'. rewrite Hp in Hp'. injection Hp' as <-. lia.
  - unfold submitAnswer in Hp'.
    destruct (map_get c (liveRooms st)) as [room|] eqn:G; [|same_participant Hp Hp'].
    destruct (map_get (uid u0) (participants room)) as [p0|] eqn:P0;
      [|same_participant Hp Hp'].
    assert (Hk : String.eqb k c = true -> map_get u (participants room) = Some p).
    { intros E. apply String.eqb_eq in E. subst. unfold participant_of in Hp.
      now rewrite G in Hp. }
    destruct (nth_z _ _); cbn [outcome_state] in Hp'; rewrite participant_of_set in Hp';
      (destruct (String.eqb k c) eqn:E; [|same_participant Hp Hp']);
      specialize (Hk eq_refl); simpl in Hp';
      (destruct (String.eqb u (uid u0)) eqn:U;
       [apply String.eqb_eq in U; subst; rewrite map_get_set_eq in Hp';
        rewrite P0 in Hk; injection Hk as <-
       |apply String.eqb_neq in U; rewrite map_get_set_neq in Hp' by congruence;
        rewrite Hk in Hp'; injection Hp' as <-; lia]).
    + destruct (existsb _ _); injection Hp' as <-; simpl; lia.
    + injection Hp' as <-; simpl; lia.
  - unfold endLive in Hp'.
    destruct (map_get c (liveRooms st)); [|same_participant Hp Hp'].
    destruct (negb _); [same_participant Hp Hp'|]. cbn [outcome_state] in Hp'.
    rewrite participant_of_delete in Hp'.
    destruct (String.eqb k c); [discriminate|same_participant Hp Hp'].
  - unfold disconnect in Hp'.
    destruct (find_hosted _ _); [|same_participant Hp Hp']. cbn [outcome_state] in Hp'.
    rewrite participant_of_delete in Hp'.
    destruct (String.eqb k s0); [discriminate|same_participant Hp Hp'].
Qed.

(** ** Witnesses of the extra properties *)

Definition es_demo : list Event :=
  [ECreateLive hostS teacher "quiz-1" (FetchFound quiz2) [draw0];
   EJoinLive aliceS alice "QZ-ABC123";
   ENextQuestion hostS "QZ-ABC123"].

Definition alice_p : Participant := mkParticipant "Alice" 0 [].

Lemma live_code_canonical_joinable_witness :
  rcode room_q1 = "QZ-ABC123" /\ toUpperCase "QZ-ABC123" = "QZ-ABC123" /\
  forall s u c, ascii_only c = true -> toUpperCase c = "QZ-ABC123" ->
    In (Reply, MSuccess) (outcome_out (joinLive (run init es_demo) s u c)).
Proof.
  exact (live_code_canonical_joinable es_demo "QZ-ABC123" room_q1
           ltac:(vm_compute; reflexivity)).
Defined.

Lemma host_in_own_group_witness :
  In (hostSocket room_q1)
     (members (groups (run init (es_demo ++ [EDisconnect aliceS]))) "QZ-ABC123").
Proof.
  exact (host_in_own_group (es_demo ++ [EDisconnect aliceS]) "QZ-ABC123" room_q1
           ltac:(vm_compute; reflexivity)
           ltac:(vm_compute; intros [H|[]]; discriminate)).
Defined.

Lemma only_createLive_adds_sessions_witness :
  incl (keys (liveRooms (outcome_state (step st_q1 (EEndLive hostS "QZ-ABC123")))))
       (keys (liveRooms st_q1)).
Proof.
  exact (only_createLive_adds_sessions st_q1 (EEndLive hostS "QZ-ABC123") eq_refl).
Defined.

Lemma joinLive_registers_participant_witness :
  exists st' out room',
    joinLive st_q1 3 (mkUser "B1" "Bob" "student") "qz-abc123" = Ret st' out /\
    map_get (toUpperCase "qz-abc123") (liveRooms st') = Some room' /\
    map_get "B1" (participants room') = Some (mkParticipant "Bob" 0 []) /\
    (forall u', u' <> "B1" ->
       map_get u' (participants room') = map_get u' (participants room_q1)) /\
    currentIndex room' = currentIndex room_q1 /\
    In (3, "qz-abc123") (groups st') /\
    In (ToSocket (hostSocket room_q1),
        MStudentJoined "Bob" (length (participants room'))) out /\
    In (Reply, MSuccess) out.
Proof.
  exact (joinLive_registers_participant st_q1 3 (mkUser "B1" "Bob" "student")
           "qz-abc123" room_q1 ltac:(vm_compute; reflexivity)).
Defined.

Lemma joinLive_catch_up_witness :
  let out := outcome_out (joinLive (run init es_demo) 3
                            (mkUser "B1" "Bob" "student") "QZ-ABC123") in
  (0 < currentIndex room_q1 ->
   exists q, nth_error (questions (quiz room_q1)) (currentIndex room_q1 - 1) = Some q /\
     In (ToSocket 3, MNewQuestion (Some q) (Z.of_nat (currentIndex room_q1) - 1)) out) /\
  (currentIndex room_q1 = 0 -> length out = 3).
Proof.
  exact (joinLive_catch_up es_demo 3 (mkUser "B1" "Bob" "student") "QZ-ABC123"
           room_q1 ltac:(vm_compute; reflexivity)).
Defined.

Lemma nextQuestion_advances_witness :
  exists q st',
    nth_error (questions (quiz room_q1)) (currentIndex room_q1) = Some q /\
    nextQuestion st_q1 (hostSocket room_q1) "QZ-ABC123"
      = Ret st' [(ToGroup "QZ-ABC123",
                  MNewQuestion (Some q) (Z.of_nat (currentIndex room_q1)))] /\
    map_get "QZ-ABC123" (liveRooms st')
      = Some (with_index room_q1 (S (currentIndex room_q1))) /\
    participants (with_index room_q1 (S (currentIndex room_q1)))
      = participants room_q1.
Proof.
  exact (nextQuestion_advances st_q1 "QZ-ABC123" room_q1
           ltac:(vm_compute; reflexivity) ltac:(vm_compute; lia)).
Defined.

Lemma endLive_removes_only_its_session_witness :
  exists st',
    endLive st_two_hosted (hostSocket room_b) "QZ-BBB111"
      = Ret st' [(ToGroup "QZ-BBB111", MLiveEnded "ended_by_teacher")] /\
    map_get "QZ-BBB111" (liveRooms st') = None /\
    (forall k, k <> "QZ-BBB111" ->
       map_get k (liveRooms st') = map_get k (liveRooms st_two_hosted)) /\
    groups st' = groups st_two_hosted.
Proof.
  exact (endLive_removes_only_its_session st_two_hosted "QZ-BBB111" room_b
           ltac:(vm_compute; reflexivity)).
Defined.

Lemma submitAnswer_incorrect_keeps_score_witness :
  exists st',
    submitAnswer st_q1 aliceS alice "QZ-ABC123" 3%Z
      = Ret st' [(ToSocket (hostSocket room_q1), MAnswerHost (pname alice_p) false);
                 (ToGroupExcept "QZ-ABC123" aliceS, MAnswerPeer (pname alice_p))] /\
    participant_of st' "QZ-ABC123" (uid alice)
      = Some (mkParticipant (pname alice_p) (score alice_p)
                (answers_set (Z.of_nat (currentIndex room_q1) - 1) 3%Z
                             (answers alice_p))).
Proof.
  exact (submitAnswer_incorrect_keeps_score st_q1 aliceS alice "QZ-ABC123"
           room_q1 alice_p q0 3%Z
           ltac:(vm_compute; reflexivity) ltac:(vm_compute; reflexivity)
           ltac:(vm_compute; lia) ltac:(vm_compute; reflexivity)
           ltac:(simpl; intuition discriminate)).
Defined.

Lemma submitAnswer_throws_iff_lobby_witness :
  (exists st' out,
     submitAnswer (run init es_demo) aliceS alice "QZ-ABC123" 1%Z = Throw st' out)
  <-> currentIndex room_q1 = 0.
Proof.
  exact (submitAnswer_throws_iff_lobby es_demo aliceS alice "QZ-ABC123" room_q1
           alice_p 1%Z ltac:(vm_compute; reflexivity)
           ltac:(vm_compute; reflexivity)).
Defined.

Definition token_alice : DecodedToken :=
  mkDecoded "A1" (Some "alice@school.fr") None None.

Definition verify_demo (t : string) : VerifyResult :=
  if String.eqb t "tok-A1" then VerifyOk token_alice else VerifyRejects.

Lemma authenticate_requires_verified_token_witness :
  exists t d, Some "tok-A1" = Some t /\ t <> "" /\ verify_demo t = VerifyOk d /\
              user_of_token token_alice = user_of_token d.
Proof.
  exact (authenticate_requires_verified_token (Some "tok-A1") verify_demo
           (user_of_token token_alice) eq_refl).
Defined.

Lemma group_membership_persists_witness :
  In (aliceS, "QZ-ABC123")
     (groups (outcome_state (step st_joined (EDisconnect hostS)))) <->
  EDisconnect hostS <> EDisconnect aliceS.
Proof.
  exact (group_membership_persists st_joined (EDisconnect hostS) aliceS "QZ-ABC123"
           ltac:(vm_compute; right; left; reflexivity)).
Defined.

Lemma non_teacher_token_cannot_create_witness :
  createLive init 5 (user_of_token token_alice) "quiz-1" (FetchFound quiz2) [draw0]
    = Ret init [(Reply, MError "Seuls les professeurs peuvent créer un live")].
Proof.
  apply (non_teacher_token_cannot_create "tok-A1" token_alice verify_demo).
  - reflexivity.
  - reflexivity.
  - discriminate.
Defined.

Lemma createLive_success_witness :
  exists st',
    createLive init hostS teacher "quiz-1" (FetchFound quiz2) [draw0]
      = Ret st' [(Reply, MCode "QZ-ABC123"); (ToSocket hostS, MLiveCreated "QZ-ABC123")] /\
    map_get "QZ-ABC123" (liveRooms init) = None /\
    map_get "QZ-ABC123" (liveRooms st')
      = Some (mkRoom "QZ-ABC123" hostS "quiz-1" quiz2 0 []) /\
    (forall k, k <> "QZ-ABC123" -> map_get k (liveRooms st') = map_get k (liveRooms init)) /\
    In (hostS, "QZ-ABC123") (groups st').
Proof.
  exact (createLive_success init hostS teacher "quiz-1" quiz2 [draw0] "QZ-ABC123"
           eq_refl eq_refl ltac:(vm_compute; reflexivity)).
Defined.

Lemma scores_monotone_except_join_witness :
  score alice_p <= score (mkParticipant "Alice" 1 [(0%Z, 1%Z)]).
Proof.
  exact (scores_monotone_except_join st_q1 (ESubmitAnswer aliceS alice "QZ-ABC123" 1%Z)
           "QZ-ABC123" "A1" alice_p (mkParticipant "Alice" 1 [(0%Z, 1%Z)])
           eq_refl ltac:(vm_compute; reflexivity) ltac:(vm_compute; reflexivity)).
Defined.
